(** * ARM bit-banding flags (arm_bit_banding.h)

    A shallow embedding of the header [src/arm_bit_banding.h]: the address
    translation macros, [abb_make], and the three accessors [abb_set],
    [abb_clear] and [abb_tst], together with a model of the memory bus the
    accessors talk to.

    Conventions.
    - The target is a Cortex-M3/M4: pointers and [uint32_t] are 32 bits wide.
      A 32-bit value is a [Z] in [0, 2^32); every C operation on [uint32_t]
      is followed by its reduction modulo 2^32 ([uint32]).
    - [flag_t] (a [volatile uint32_t*]) is the numeric value of the pointer.
    - The two configuration macros [SRAM1_BB_BASE] and [SRAM1_BASE] are not
      defined by the header; they are parameters of every definition.
    - A volatile access is an observable event.  The accessors are programs
      over the two events "load a word" and "store a word" ([prog]); a [bus]
      gives the events their meaning.
    - Where a property is about what a body reads, the body is also given
      as a C expression ([expr]) whose evaluation may load from memory, and
      is shown to compute the function above. *)

From Stdlib Require Import ZArith Lia Bool List.
From stdpp Require Import base numbers functions strings gmap.

Local Open Scope Z_scope.

(** ** Machine integers *)

(** Conversion to [uint32_t]: reduction modulo 2^32. *)
Definition uint32 (z : Z) : Z := z mod 2 ^ 32.

(** [typedef volatile uint32_t* flag_t;] *)
Definition flag_t : Type := Z.

(** [#define INVALID_FLAG (flag_t)NULL] *)
Definition INVALID_FLAG : flag_t := 0.

(** ** The translation macros and [abb_make] *)

Section Translation.

(** The two externally configured macros. *)
Variable SRAM1_BB_BASE : Z.
Variable SRAM1_BASE : Z.

(** [#define BIT_WORD_OFFSET(byte_offset, bit_num)
       (((byte_offset)*32) + ((bit_num)*4))]
    [byte_offset] is a [uint32_t], so the product and the sum are computed
    in [uint32_t]; [bit_num] is a promoted [uint8_t], so [bit_num*4] is an
    [int] that cannot overflow. *)
Definition BIT_WORD_OFFSET (byte_offset bit_num : Z) : Z :=
  uint32 (uint32 (byte_offset * 32) + bit_num * 4).

(** [#define BIT_WORD_ADDR(byte_offset, bit_num)
       (flag_t)(((SRAM1_BB_BASE) + BIT_WORD_OFFSET(byte_offset, bit_num)))]
    The conversion to the 32-bit pointer type keeps the low 32 bits of the
    sum, whatever integer type [SRAM1_BB_BASE] is written in. *)
Definition BIT_WORD_ADDR (byte_offset bit_num : Z) : flag_t :=
  uint32 (SRAM1_BB_BASE + BIT_WORD_OFFSET byte_offset bit_num).

(** [#define BYTE_OFFSET(ADDR) (((uint32_t)(ADDR) - (uint32_t)(SRAM1_BASE)))] *)
Definition BYTE_OFFSET (ADDR : Z) : Z :=
  uint32 (uint32 ADDR - uint32 SRAM1_BASE).

(** [#define MAKE_FLAG(ADDR, BIT)
       (flag_t)(BIT_WORD_ADDR(BYTE_OFFSET(ADDR), (BIT)))] *)
Definition MAKE_FLAG (ADDR BIT : Z) : flag_t :=
  BIT_WORD_ADDR (BYTE_OFFSET ADDR) BIT.

(** [static inline flag_t abb_make(volatile uint8_t* addr, uint8_t bit)
     { return (bit < 8) ? MAKE_FLAG(addr, bit) : INVALID_FLAG; }]
    [addr] is the value of the pointer, [bit] a value of [uint8_t], that
    is 0..255. *)
Definition abb_make (addr bit : Z) : flag_t :=
  if bit <? 8 then MAKE_FLAG addr bit else INVALID_FLAG.

End Translation.

(** ** Volatile accesses *)

(** The two kinds of access the header performs, both one word wide. *)
Inductive access : Type :=
| Load32 (a : Z)
| Store32 (a v : Z).

(** A program over word accesses: it returns, or loads a word and goes on
    with the value read, or stores a word and goes on. *)
Inductive prog (A : Type) : Type :=
| Ret (x : A)
| Ld (a : Z) (k : Z -> prog A)
| St (a v : Z) (k : prog A).

Arguments Ret {A} x.
Arguments Ld {A} a k.
Arguments St {A} a v k.

Fixpoint bind {A B : Type} (f : A -> prog B) (p : prog A) : prog B :=
  match p with
  | Ret x => f x
  | Ld a k => Ld a (fun v => bind f (k v))
  | St a v k => St a v (bind f k)
  end.

(** Sequencing is written [p ;; q] and [x ← p; q]. *)
#[global] Instance prog_ret : MRet prog := @Ret.
#[global] Instance prog_bind : MBind prog := @bind.

(** [static inline void abb_set(flag_t flag) { *flag = 1; }] *)
Definition abb_set (flag : flag_t) : prog unit := St flag 1 (Ret tt).

(** [static inline void abb_clear(flag_t flag) { *flag = 0; }] *)
Definition abb_clear (flag : flag_t) : prog unit := St flag 0 (Ret tt).

(** [static inline bool abb_tst(const flag_t flag) { return *flag == 1; }] *)
Definition abb_tst (flag : flag_t) : prog bool :=
  Ld flag (fun v => Ret (v =? 1)).

(** ** The memory bus *)

(** What a word load and a word store do to a memory of type [M].  A load
    returns the value read and the memory after the load: a volatile read
    may have an effect of its own. *)
Record bus (M : Type) : Type := Bus {
  load32 : Z -> M -> Z * M;
  store32 : Z -> Z -> M -> M
}.

Arguments Bus {M} _ _.
Arguments load32 {M} _ _ _.
Arguments store32 {M} _ _ _ _.

(** The outcome of running a program: the accesses it made, in order, the
    value it returned and the memory it left. *)
Record outcome (M A : Type) : Type := Outcome {
  trace : list access;
  result : A;
  final : M
}.

Arguments Outcome {M A} _ _ _.
Arguments trace {M A} _.
Arguments result {M A} _.
Arguments final {M A} _.

Fixpoint exec {M A : Type} (b : bus M) (p : prog A) (m : M) : outcome M A :=
  match p with
  | Ret x => Outcome [] x m
  | Ld a k =>
      let '(v, m') := load32 b a m in
      let o := exec b (k v) m' in
      Outcome (Load32 a :: trace o) (result o) (final o)
  | St a v k =>
      let o := exec b k (store32 b a v m) in
      Outcome (Store32 a v :: trace o) (result o) (final o)
  end.

(** ** The Cortex-M bit-band bus *)

(** Memory as the processor sees it through ordinary byte accesses: the byte
    stored at every address. *)
Abbreviation sram := (Z -> Z).

(** An ordinary byte read of the cell at address [a]. *)
Definition load8 (a : Z) (m : sram) : Z := m a.

Section BitBandBus.

(** Where the hardware puts the alias window and the bit-band region, and
    how many bytes the bit-band region has (2^20 on a Cortex-M3/M4). *)
Variable alias_base : Z.
Variable region_base : Z.
Variable region_size : Z.

(** Modelled from the spec: the bit-band hardware, which the header relies
    on and describes in its file comment but which no file of the repository
    implements.  This is its alias window: each byte of the bit-band region
    has 32 bytes of alias space, one 4-byte alias word per bit. *)
Definition in_alias (a : Z) : bool :=
  (alias_base <=? a) && (a <? alias_base + 32 * region_size).

(** Modelled from the spec: the cell an alias word stands for. *)
Definition alias_cell (a : Z) : Z := region_base + (a - alias_base) / 32.

(** Modelled from the spec: the bit of that cell an alias word stands
    for. *)
Definition alias_bit (a : Z) : Z := ((a - alias_base) / 4) mod 8.

(** Modelled from the spec: a word read of an alias word gives 1 when the
    bit is set and 0 when it is clear. *)
Definition alias_load (a : Z) (m : sram) : Z :=
  Z.b2z (Z.testbit (m (alias_cell a)) (alias_bit a)).

(** Modelled from the spec: a word write to an alias word drives the bit to
    bit 0 of the value written and touches nothing else. *)
Definition alias_store (a v : Z) (m : sram) : sram :=
  let c := alias_cell a in
  <[c := if Z.testbit v 0
         then Z.setbit (m c) (alias_bit a)
         else Z.clearbit (m c) (alias_bit a)]> m.

(** Outside the alias window the bus reaches ordinary memory: a word is
    four bytes, least significant first. *)
Definition word_load (a : Z) (m : sram) : Z :=
  m a + 2 ^ 8 * m (a + 1) + 2 ^ 16 * m (a + 2) + 2 ^ 24 * m (a + 3).

Definition word_store (a v : Z) (m : sram) : sram :=
  <[a + 3 := (v / 2 ^ 24) mod 2 ^ 8]>
    (<[a + 2 := (v / 2 ^ 16) mod 2 ^ 8]>
       (<[a + 1 := (v / 2 ^ 8) mod 2 ^ 8]>
          (<[a := v mod 2 ^ 8]> m))).

(** Modelled from the spec: the bus of a processor with bit-banding.  A
    load changes nothing. *)
Definition bitband_bus : bus sram :=
  Bus (fun a m => (if in_alias a then alias_load a m else word_load a m, m))
      (fun a v m => if in_alias a then alias_store a v m else word_store a v m).

(** The cell lies in the bit-band region. *)
Definition in_window (c : Z) : Prop :=
  region_base <= c < region_base + region_size.

(** Both windows lie in the 32-bit address space. *)
Definition platform_ok : Prop :=
  0 <= region_base /\ region_base + region_size <= 2 ^ 32 /\
  0 <= alias_base /\ alias_base + 32 * region_size <= 2 ^ 32.

End BitBandBus.

(** The memory map of the SRAM bit-band region of a Cortex-M3/M4. *)
Definition CM_SRAM_BB_BASE : Z := 0x22000000.
Definition CM_SRAM_BASE : Z := 0x20000000.
Definition CM_SRAM_BB_SIZE : Z := 0x100000.

(** A bus on which every load reads the same value, for exercising
    [abb_tst]. *)
Definition stuck_bus (v : Z) : bus unit :=
  Bus (fun _ m => (v, m)) (fun _ _ m => m).

(** ** The configuration guards *)

(** The macros defined when the header is included, with their values. *)
Abbreviation macros := (gmap string Z).

(** [defined(NAME)] *)
Definition defined (env : macros) (name : string) : bool :=
  bool_decide (is_Some (env !! name)).

(** What the translation of a unit that includes the header comes to: it is
    rejected with the messages of the [#error] directives reached, or it is
    accepted and the functions of the header exist. *)
Inductive translation : Type :=
| Rejected (diagnostics : list string)
| Accepted (make : Z -> Z -> flag_t).

(** [#if !defined(SRAM1_BB_BASE) #error ... #endif]
    [#if !defined(SRAM1_BASE) #error ... #endif] *)
Definition config_errors (env : macros) : list string :=
  (if defined env "SRAM1_BB_BASE" then []
   else ["The SRAM1 base address in the alis region undefined. Please define            SRAM1_BB_BASE address!"%string])
  ++
  (if defined env "SRAM1_BASE" then []
   else ["The SRAM1 base address in the bit-band region undefined. Please define            SRAM1_BASE address!"%string]).

(** The header as a whole: a translation unit with an [#error] directive
    that was not skipped is not translated; otherwise the two macros expand
    to their values in the functions of the header. *)
Definition arm_bit_banding_h (env : macros) : translation :=
  match config_errors env with
  | [] => Accepted (abb_make (env !!! "SRAM1_BB_BASE"%string)
                             (env !!! "SRAM1_BASE"%string))
  | errs => Rejected errs
  end.

(** ** The function bodies as C expressions *)

(** The expressions the bodies of the header's functions are made of.  An
    expression is evaluated in the frame of a call, which holds the
    parameters, and may read the memory: [Deref] is a word load, an access
    like any other.  The operators carry the type C computes them in. *)
Inductive expr : Type :=
| Const (z : Z)              (* an integer constant, an expanded macro *)
| Param (x : string)         (* a parameter of the function *)
| ToU32 (e : expr)           (* [(uint32_t)(e)], [(flag_t)(e)] *)
| AddU (e1 e2 : expr)        (* [e1 + e2] in [uint32_t] *)
| SubU (e1 e2 : expr)        (* [e1 - e2] in [uint32_t] *)
| MulU (e1 e2 : expr)        (* [e1 * e2] in [uint32_t] *)
| MulI (e1 e2 : expr)        (* [e1 * e2] in [int] *)
| LtI (e1 e2 : expr)         (* [e1 < e2], 1 or 0 *)
| EqU (e1 e2 : expr)         (* [e1 == e2], 1 or 0 *)
| Cond (c e1 e2 : expr)      (* [c ? e1 : e2] *)
| Deref (e : expr).          (* [*e], a word load *)

(** The frame of a call: the value of every parameter. *)
Abbreviation frame := (string -> Z).

(** Evaluation of an expression, as a program over word accesses.  Only the
    branch a conditional chooses is evaluated. *)
Fixpoint denote (ρ : frame) (e : expr) : prog Z :=
  match e with
  | Const z => mret z
  | Param x => mret (ρ x)
  | ToU32 e => v ← denote ρ e; mret (uint32 v)
  | AddU e1 e2 => v1 ← denote ρ e1; v2 ← denote ρ e2; mret (uint32 (v1 + v2))
  | SubU e1 e2 => v1 ← denote ρ e1; v2 ← denote ρ e2; mret (uint32 (v1 - v2))
  | MulU e1 e2 => v1 ← denote ρ e1; v2 ← denote ρ e2; mret (uint32 (v1 * v2))
  | MulI e1 e2 => v1 ← denote ρ e1; v2 ← denote ρ e2; mret (v1 * v2)
  | LtI e1 e2 =>
      v1 ← denote ρ e1; v2 ← denote ρ e2; mret (if v1 <? v2 then 1 else 0)
  | EqU e1 e2 =>
      v1 ← denote ρ e1; v2 ← denote ρ e2; mret (if v1 =? v2 then 1 else 0)
  | Cond c e1 e2 =>
      v ← denote ρ c; if v =? 0 then denote ρ e2 else denote ρ e1
  | Deref e => a ← denote ρ e; Ld a Ret
  end.

(** The expression reads no memory. *)
Fixpoint no_deref (e : expr) : bool :=
  match e with
  | Const _ | Param _ => true
  | ToU32 e => no_deref e
  | AddU e1 e2 | SubU e1 e2 | MulU e1 e2 | MulI e1 e2
  | LtI e1 e2 | EqU e1 e2 => no_deref e1 && no_deref e2
  | Cond c e1 e2 => no_deref c && no_deref e1 && no_deref e2
  | Deref _ => false
  end.

Section Bodies.

Variable SRAM1_BB_BASE : Z.
Variable SRAM1_BASE : Z.

(** [(((uint32_t)(ADDR) - (uint32_t)(SRAM1_BASE)))] *)
Definition BYTE_OFFSET_expr (ADDR : expr) : expr :=
  SubU (ToU32 ADDR) (ToU32 (Const SRAM1_BASE)).

(** [(((byte_offset)*32) + ((bit_num)*4))] *)
Definition BIT_WORD_OFFSET_expr (byte_offset bit_num : expr) : expr :=
  AddU (MulU byte_offset (Const 32)) (MulI bit_num (Const 4)).

(** [(flag_t)(((SRAM1_BB_BASE) + BIT_WORD_OFFSET(byte_offset, bit_num)))] *)
Definition BIT_WORD_ADDR_expr (byte_offset bit_num : expr) : expr :=
  ToU32 (AddU (Const SRAM1_BB_BASE) (BIT_WORD_OFFSET_expr byte_offset bit_num)).

(** [(flag_t)(BIT_WORD_ADDR(BYTE_OFFSET(ADDR), (BIT)))] *)
Definition MAKE_FLAG_expr (ADDR BIT : expr) : expr :=
  ToU32 (BIT_WORD_ADDR_expr (BYTE_OFFSET_expr ADDR) BIT).

(** The expression [abb_make] returns, its macros expanded:
    [(bit < 8) ? MAKE_FLAG(addr, bit) : INVALID_FLAG]. *)
Definition abb_make_body : expr :=
  Cond (LtI (Param "bit") (Const 8))
       (MAKE_FLAG_expr (Param "addr") (Param "bit"))
       (ToU32 (Const 0)).

End Bodies.

(** The expression [abb_tst] returns: [*flag == 1]. *)
Definition abb_tst_body : expr :=
  EqU (Deref (Param "flag")) (Const 1).

(** * Properties *)

(** ** Arithmetic of [uint32] *)

Lemma uint32_range z : 0 <= uint32 z < 2 ^ 32.
Proof. unfold uint32. apply Z.mod_pos_bound. lia. Qed.

Lemma uint32_small z : 0 <= z < 2 ^ 32 -> uint32 z = z.
Proof. intros H. unfold uint32. apply Z.mod_small. exact H. Qed.

Lemma uint32_idem z : uint32 (uint32 z) = uint32 z.
Proof. unfold uint32. apply Z.mod_mod. lia. Qed.

Lemma uint32_add_l a b : uint32 (uint32 a + b) = uint32 (a + b).
Proof. unfold uint32. apply Zplus_mod_idemp_l. Qed.

Lemma uint32_add_r a b : uint32 (a + uint32 b) = uint32 (a + b).
Proof. unfold uint32. apply Zplus_mod_idemp_r. Qed.

Lemma uint32_sub_l a b : uint32 (uint32 a - b) = uint32 (a - b).
Proof. unfold uint32. apply Zminus_mod_idemp_l. Qed.

Lemma uint32_sub_r a b : uint32 (a - uint32 b) = uint32 (a - b).
Proof. unfold uint32. apply Zminus_mod_idemp_r. Qed.

Lemma uint32_mul_l a b : uint32 (uint32 a * b) = uint32 (a * b).
Proof. unfold uint32. apply Zmult_mod_idemp_l. Qed.

Create Rewrite HintDb u32.
#[local] Hint Rewrite uint32_idem uint32_add_l uint32_add_r uint32_sub_l
  uint32_sub_r uint32_mul_l : u32.

(** ** The address formula *)

Section TranslationFacts.

Variables BB B : Z.

(** The byte offset is the difference of the two addresses, reduced. *)
Lemma BYTE_OFFSET_eq addr : BYTE_OFFSET B addr = uint32 (addr - B).
Proof. unfold BYTE_OFFSET. now autorewrite with u32. Qed.

(** The whole computation is the integer formula, reduced once. *)
Lemma MAKE_FLAG_mod addr bit :
  MAKE_FLAG BB B addr bit = uint32 (BB + (addr - B) * 32 + bit * 4).
Proof.
  unfold MAKE_FLAG, BIT_WORD_ADDR, BIT_WORD_OFFSET.
  rewrite BYTE_OFFSET_eq. autorewrite with u32.
  rewrite Z.add_assoc, (Z.add_comm BB), <- Z.add_assoc.
  autorewrite with u32.
  f_equal. lia.
Qed.

Lemma abb_make_valid addr bit :
  bit < 8 -> abb_make BB B addr bit = MAKE_FLAG BB B addr bit.
Proof.
  intros H. unfold abb_make.
  destruct (Z.ltb_spec bit 8) as [_ | Hge]; [reflexivity | lia].
Qed.

Lemma abb_make_invalid addr bit :
  8 <= bit -> abb_make BB B addr bit = INVALID_FLAG.
Proof.
  intros H. unfold abb_make.
  destruct (Z.ltb_spec bit 8) as [Hlt | _]; [lia | reflexivity].
Qed.

(** When neither the difference nor the sum leaves [0, 2^32), nothing is
    reduced. *)
Lemma abb_make_exact addr bit :
  0 <= bit < 8 ->
  0 <= BB + (addr - B) * 32 + bit * 4 < 2 ^ 32 ->
  abb_make BB B addr bit = BB + (addr - B) * 32 + bit * 4.
Proof.
  intros Hbit Hrange.
  rewrite abb_make_valid by lia.
  rewrite MAKE_FLAG_mod. now apply uint32_small.
Qed.

(** In the bit-band region of a well-formed platform nothing is reduced,
    and the handle lies in the alias window. *)
Lemma abb_make_in_window n c k :
  platform_ok BB B n -> in_window B n c -> 0 <= k < 8 ->
  abb_make BB B c k = BB + (c - B) * 32 + k * 4 /\
  BB <= abb_make BB B c k < BB + 32 * n.
Proof.
  unfold platform_ok, in_window. intros Hok Hc Hk.
  rewrite abb_make_exact by lia. lia.
Qed.

End TranslationFacts.

(** ** Running programs *)

Lemma exec_bind {M A B} (b : bus M) (p : prog A) (f : A -> prog B) m :
  exec b (p ≫= f) m =
  let o := exec b p m in
  let o' := exec b (f (result o)) (final o) in
  Outcome (trace o ++ trace o') (result o') (final o').
Proof.
  unfold mbind, prog_bind. revert m.
  induction p as [x | a k IH | a v k IH]; intros m; cbn.
  - now destruct (exec b (f x) m).
  - destruct (load32 b a m) as [w m']. rewrite IH. reflexivity.
  - rewrite IH. reflexivity.
Qed.

(** ** Claims about [abb_make] *)

(** C1.  For every cell address and every bit index in 0..7, [abb_make]
    returns the address AliasBase + (cellAddress - SourceBase) * 32 +
    bitIndex * 4, the byte offset being the unsigned ([uint32_t]) difference
    of the two addresses and the handle a 32-bit address; whenever the value
    of the formula over the integers is itself a 32-bit address the handle
    is exactly that value.  With SourceBase 0x20000000, AliasBase
    0x22000000, cell 0x20000004 and bit 3 the handle is 0x2200008C. *)
Theorem abb_make_address_formula :
  (forall BB B addr bit : Z,
      0 <= bit < 8 ->
      abb_make BB B addr bit = uint32 (BB + uint32 (addr - B) * 32 + bit * 4) /\
      (0 <= BB + (addr - B) * 32 + bit * 4 < 2 ^ 32 ->
       abb_make BB B addr bit = BB + (addr - B) * 32 + bit * 4)) /\
  abb_make 0x22000000 0x20000000 0x20000004 3 = 0x2200008C.
Proof.
  split; [| reflexivity].
  intros BB B addr bit Hbit. split.
  - rewrite abb_make_valid by lia. rewrite MAKE_FLAG_mod.
    rewrite <- (uint32_add_l (BB + uint32 (addr - B) * 32)).
    rewrite <- (uint32_add_r BB), uint32_mul_l, uint32_add_r, uint32_add_l.
    f_equal; lia.
  - intros Hrange. now apply abb_make_exact.
Qed.

Lemma abb_make_address_formula_witness :
  abb_make 0x22000000 0x20000000 0x20000004 3 =
  0x22000000 + (0x20000004 - 0x20000000) * 32 + 3 * 4.
Proof.
  apply (proj1 abb_make_address_formula 0x22000000 0x20000000 0x20000004 3);
    lia.
Defined.

(** C2.  For every cell address, a bit index of 8 or more makes [abb_make]
    return [INVALID_FLAG], the null pointer; the bit index is the only thing
    checked: below 8 the computed address is returned whatever the cell
    address is. *)
Theorem abb_make_invalid_bit (BB B addr bit : Z) :
  (8 <= bit -> abb_make BB B addr bit = INVALID_FLAG /\ INVALID_FLAG = 0) /\
  (bit < 8 -> abb_make BB B addr bit = MAKE_FLAG BB B addr bit).
Proof.
  split; intros H.
  - split; [now apply abb_make_invalid | reflexivity].
  - now apply abb_make_valid.
Qed.

Lemma abb_make_invalid_bit_witness :
  abb_make CM_SRAM_BB_BASE CM_SRAM_BASE 0x20000004 8 = INVALID_FLAG /\
  abb_make CM_SRAM_BB_BASE CM_SRAM_BASE 0x20000004 255 = INVALID_FLAG.
Proof.
  split.
  - apply (proj1 (abb_make_invalid_bit CM_SRAM_BB_BASE CM_SRAM_BASE
                    0x20000004 8)). lia.
  - apply (proj1 (abb_make_invalid_bit CM_SRAM_BB_BASE CM_SRAM_BASE
                    0x20000004 255)). lia.
Defined.

(** C5.  On a platform whose windows lie in the address space, the handle
    mapping is injective on the cells of the bit-band region and bits 0..7;
    for one cell the eight handles are pairwise distinct, the handle of bit
    [k] lies [4 * k] after the handle of bit 0, consecutive bits are exactly
    4 apart, and so are bits 0 and 1. *)
Theorem abb_make_injective (BB B n : Z) :
  platform_ok BB B n ->
  (forall c1 k1 c2 k2,
      in_window B n c1 -> in_window B n c2 -> 0 <= k1 < 8 -> 0 <= k2 < 8 ->
      abb_make BB B c1 k1 = abb_make BB B c2 k2 -> c1 = c2 /\ k1 = k2) /\
  (forall c k1 k2,
      in_window B n c -> 0 <= k1 < 8 -> 0 <= k2 < 8 -> k1 <> k2 ->
      abb_make BB B c k1 <> abb_make BB B c k2) /\
  (forall c k,
      in_window B n c -> 0 <= k < 8 ->
      abb_make BB B c k = abb_make BB B c 0 + 4 * k) /\
  (forall c k,
      in_window B n c -> 0 <= k < 7 ->
      abb_make BB B c (k + 1) - abb_make BB B c k = 4) /\
  (forall c,
      in_window B n c -> abb_make BB B c 1 - abb_make BB B c 0 = 4).
Proof.
  intros Hok.
  assert (Hex : forall c k, in_window B n c -> 0 <= k < 8 ->
                  abb_make BB B c k = BB + (c - B) * 32 + k * 4).
  { intros c k Hc Hk. now apply (abb_make_in_window BB B n c k). }
  split; [| split; [| split; [| split]]].
  - intros c1 k1 c2 k2 Hc1 Hc2 Hk1 Hk2 Heq.
    rewrite !Hex in Heq by assumption. lia.
  - intros c k1 k2 Hc Hk1 Hk2 Hne. rewrite !Hex by assumption. lia.
  - intros c k Hc Hk. rewrite !Hex by (assumption || lia). lia.
  - intros c k Hc Hk. rewrite !Hex by (assumption || lia). lia.
  - intros c Hc. rewrite !Hex by (assumption || lia). lia.
Qed.

Lemma abb_make_injective_witness :
  abb_make CM_SRAM_BB_BASE CM_SRAM_BASE 0x20000004 1 -
  abb_make CM_SRAM_BB_BASE CM_SRAM_BASE 0x20000004 0 = 4.
Proof.
  apply (abb_make_injective CM_SRAM_BB_BASE CM_SRAM_BASE CM_SRAM_BB_SIZE).
  - unfold platform_ok, CM_SRAM_BB_BASE, CM_SRAM_BASE, CM_SRAM_BB_SIZE. lia.
  - unfold in_window, CM_SRAM_BASE, CM_SRAM_BB_SIZE. lia.
Defined.

(** An expression that reads no memory evaluates without any access. *)
Lemma no_deref_silent (ρ : frame) (e : expr) :
  no_deref e = true -> exists v, denote ρ e = Ret v.
Proof.
  unfold mbind, mret, prog_bind, prog_ret.
  induction e as [z | x | e IH | e1 IH1 e2 IH2 | e1 IH1 e2 IH2
                 | e1 IH1 e2 IH2 | e1 IH1 e2 IH2 | e1 IH1 e2 IH2
                 | e1 IH1 e2 IH2 | c IHc e1 IH1 e2 IH2 | e IH];
    cbn [no_deref denote]; unfold mbind, mret, prog_bind, prog_ret;
    intros Hnd; try discriminate Hnd;
    repeat match goal with
      | H : _ && _ = true |- _ => apply andb_true_iff in H; destruct H
      end.
  - eauto.
  - eauto.
  - destruct (IH Hnd) as [v E]. rewrite E. cbn [bind]. eauto.
  - destruct IH1 as [v1 E1], IH2 as [v2 E2]; try assumption.
    rewrite E1. cbn [bind]. rewrite E2. cbn [bind]. eauto.
  - destruct IH1 as [v1 E1], IH2 as [v2 E2]; try assumption.
    rewrite E1. cbn [bind]. rewrite E2. cbn [bind]. eauto.
  - destruct IH1 as [v1 E1], IH2 as [v2 E2]; try assumption.
    rewrite E1. cbn [bind]. rewrite E2. cbn [bind]. eauto.
  - destruct IH1 as [v1 E1], IH2 as [v2 E2]; try assumption.
    rewrite E1. cbn [bind]. rewrite E2. cbn [bind]. eauto.
  - destruct IH1 as [v1 E1], IH2 as [v2 E2]; try assumption.
    rewrite E1. cbn [bind]. rewrite E2. cbn [bind]. eauto.
  - destruct IH1 as [v1 E1], IH2 as [v2 E2]; try assumption.
    rewrite E1. cbn [bind]. rewrite E2. cbn [bind]. eauto.
  - destruct IHc as [v Ec], IH1 as [v1 E1], IH2 as [v2 E2]; try assumption.
    rewrite Ec. cbn [bind]. destruct (v =? 0); eauto.
Qed.

(** The body of [abb_make] computes what [abb_make] is. *)
Lemma denote_abb_make_body BB B (ρ : frame) :
  denote ρ (abb_make_body BB B) =
  Ret (abb_make BB B (ρ "addr"%string) (ρ "bit"%string)).
Proof.
  unfold abb_make_body, MAKE_FLAG_expr, BIT_WORD_ADDR_expr,
    BIT_WORD_OFFSET_expr, BYTE_OFFSET_expr.
  cbn [denote]. unfold mbind, mret, prog_bind, prog_ret. cbn [bind].
  unfold abb_make, MAKE_FLAG, BIT_WORD_ADDR, BIT_WORD_OFFSET, BYTE_OFFSET.
  destruct (ρ "bit"%string <? 8); cbn [Z.eqb].
  - now rewrite !uint32_idem.
  - reflexivity.
Qed.

(** The body of [abb_tst] is the load [abb_tst] makes. *)
Lemma denote_abb_tst_body (ρ : frame) :
  denote ρ abb_tst_body = (r ← abb_tst (ρ "flag"%string); mret (Z.b2z r)).
Proof. reflexivity. Qed.

(** C7.  [abb_make] is deterministic.  Its body reads no memory: evaluated
    in any frame, on any bus and in any memory it makes no access, leaves
    the memory as it is and gives the handle fixed by the values of [addr]
    and [bit] and the two constants.  So two calls whose frames agree on
    [addr] and [bit] return equal handles, whatever else differs: the bus,
    the memory, the other variables of the frame, the accesses made between
    the two calls.  An expression of the header that does read the memory,
    the body of [abb_tst], has none of this: its value follows the word
    read. *)
Theorem abb_make_deterministic (BB B : Z) :
  no_deref (abb_make_body BB B) = true /\
  (forall (ρ1 ρ2 : frame) (M1 M2 : Type) (b1 : bus M1) (b2 : bus M2)
          (m1 : M1) (m2 : M2),
      ρ1 "addr"%string = ρ2 "addr"%string ->
      ρ1 "bit"%string = ρ2 "bit"%string ->
      let o1 := exec b1 (denote ρ1 (abb_make_body BB B)) m1 in
      let o2 := exec b2 (denote ρ2 (abb_make_body BB B)) m2 in
      result o1 = result o2 /\
      result o1 = abb_make BB B (ρ1 "addr"%string) (ρ1 "bit"%string) /\
      trace o1 = [] /\ final o1 = m1) /\
  (forall (ρ : frame) (M : Type) (b : bus M) (between : prog unit) (m : M),
      result (exec b (h1 ← denote ρ (abb_make_body BB B);
                      between;;
                      h2 ← denote ρ (abb_make_body BB B);
                      mret (h1 =? h2)) m) = true) /\
  (no_deref abb_tst_body = false /\
   forall (ρ : frame),
     result (exec (stuck_bus 1) (denote ρ abb_tst_body) tt) = 1 /\
     result (exec (stuck_bus 0) (denote ρ abb_tst_body) tt) = 0).
Proof.
  split; [reflexivity | split; [| split]].
  - intros ρ1 ρ2 M1 M2 b1 b2 m1 m2 Haddr Hbit o1 o2. subst o1 o2.
    rewrite !denote_abb_make_body. cbn [exec result trace final].
    rewrite Haddr, Hbit. repeat split.
  - intros ρ M b between m.
    rewrite !denote_abb_make_body.
    rewrite exec_bind. cbn [exec result final trace].
    rewrite exec_bind. cbn [result final trace].
    rewrite exec_bind. cbn [exec result final trace].
    apply Z.eqb_refl.
  - split; [reflexivity |]. intros ρ. split; reflexivity.
Qed.

Lemma abb_make_deterministic_witness :
  let ρ1 : frame := fun x =>
    if String.eqb x "addr" then 0x20000004
    else if String.eqb x "bit" then 3 else 0 in
  let ρ2 : frame := fun x =>
    if String.eqb x "addr" then 0x20000004
    else if String.eqb x "bit" then 3 else 0xFF in
  let o1 :=
    exec (stuck_bus 7) (denote ρ1 (abb_make_body CM_SRAM_BB_BASE CM_SRAM_BASE))
      tt in
  let o2 :=
    exec (bitband_bus CM_SRAM_BB_BASE CM_SRAM_BASE CM_SRAM_BB_SIZE)
      (denote ρ2 (abb_make_body CM_SRAM_BB_BASE CM_SRAM_BASE))
      (fun _ => 0xA5) in
  result o1 = result o2 /\
  result o1 = abb_make CM_SRAM_BB_BASE CM_SRAM_BASE (ρ1 "addr"%string)
                (ρ1 "bit"%string) /\
  trace o1 = [] /\ final o1 = tt.
Proof.
  refine (proj1 (proj2 (abb_make_deterministic CM_SRAM_BB_BASE CM_SRAM_BASE))
            _ _ unit sram (stuck_bus 7)
            (bitband_bus CM_SRAM_BB_BASE CM_SRAM_BASE CM_SRAM_BB_SIZE)
            tt (fun _ => 0xA5) _ _).
  - reflexivity.
  - reflexivity.
Defined.

(** C9.  The arithmetic of [abb_make] is that of [uint32_t]: for a bit index
    below 8 the handle is the value of the formula reduced modulo 2^32 and
    is returned as it is, without any check; a cell address below SourceBase
    gives the byte offset [addr - B + 2^32]; a word offset of 2^32 or more
    loses its high part; and the reduced address can be the null pointer
    [INVALID_FLAG], for every 4-aligned AliasBase and in particular on the
    Cortex-M memory map. *)
Theorem abb_make_wraps :
  (forall BB B addr bit,
      0 <= bit < 8 ->
      abb_make BB B addr bit = (BB + (addr - B) * 32 + bit * 4) mod 2 ^ 32 /\
      0 <= abb_make BB B addr bit < 2 ^ 32) /\
  (forall B addr,
      0 <= addr < B -> B < 2 ^ 32 ->
      BYTE_OFFSET B addr = addr - B + 2 ^ 32) /\
  (forall off bit,
      0 <= off < 2 ^ 32 -> 0 <= bit < 8 -> 2 ^ 32 <= off * 32 + bit * 4 ->
      BIT_WORD_OFFSET off bit =
        off * 32 + bit * 4 - 2 ^ 32 * ((off * 32 + bit * 4) / 2 ^ 32) /\
      BIT_WORD_OFFSET off bit < off * 32 + bit * 4) /\
  (forall BB B,
      BB mod 4 = 0 ->
      exists addr bit,
        0 <= addr < 2 ^ 32 /\ 0 <= bit < 8 /\
        abb_make BB B addr bit = INVALID_FLAG) /\
  abb_make CM_SRAM_BB_BASE CM_SRAM_BASE 0x26F00000 0 = INVALID_FLAG /\
  abb_make CM_SRAM_BB_BASE CM_SRAM_BASE 0x1FFFFFFF 0 = 0x21FFFFE0 /\
  abb_make CM_SRAM_BB_BASE CM_SRAM_BASE 0x28000004 3 = 0x2200008C.
Proof.
  split; [| split; [| split; [| split; [| repeat split]]]].
  - intros BB B addr bit Hbit. rewrite abb_make_valid by lia.
    rewrite MAKE_FLAG_mod. split; [reflexivity | apply uint32_range].
  - intros B addr Haddr HB. rewrite BYTE_OFFSET_eq. unfold uint32.
    symmetry. apply (Z.mod_unique_pos _ _ (-1)); lia.
  - intros off bit Hoff Hbit Hbig. unfold BIT_WORD_OFFSET.
    rewrite uint32_add_l. unfold uint32.
    pose proof (Z.div_mod (off * 32 + bit * 4) (2 ^ 32) ltac:(lia)) as Hdm.
    pose proof (Z.mod_pos_bound (off * 32 + bit * 4) (2 ^ 32) ltac:(lia)).
    split; lia.
  - intros BB B Hal.
    set (t := (- BB) mod 2 ^ 32).
    assert (Ht : 0 <= t < 2 ^ 32) by (apply Z.mod_pos_bound; lia).
    assert (Ht4 : t mod 4 = 0).
    { unfold t. change (2 ^ 32) with 4294967296.
      Z.div_mod_to_equations. lia. }
    exists (uint32 (B + t / 32)), ((t mod 32) / 4).
    assert (Hk : 0 <= t mod 32 / 4 < 8).
    { pose proof (Z.mod_pos_bound t 32 ltac:(lia)).
      split; [apply Z.div_pos; lia | apply Z.div_lt_upper_bound; lia]. }
    split; [apply uint32_range | split; [exact Hk |]].
    rewrite abb_make_valid by lia. rewrite MAKE_FLAG_mod.
    rewrite <- (uint32_add_l (BB + _)), <- (uint32_add_r BB).
    rewrite <- uint32_mul_l, uint32_sub_l, uint32_mul_l, uint32_add_r,
      uint32_add_l.
    replace (BB + (B + t / 32 - B) * 32 + t mod 32 / 4 * 4) with (BB + t).
    + unfold t, uint32, INVALID_FLAG.
      rewrite Zplus_mod_idemp_r. replace (BB + - BB) with 0 by lia.
      reflexivity.
    + clearbody t. Z.div_mod_to_equations. lia.
Qed.

Lemma abb_make_wraps_witness :
  abb_make CM_SRAM_BB_BASE CM_SRAM_BASE 0x28000004 3 =
  (CM_SRAM_BB_BASE + (0x28000004 - CM_SRAM_BASE) * 32 + 3 * 4) mod 2 ^ 32 /\
  BYTE_OFFSET CM_SRAM_BASE 0x1FFFFFFF = 0x1FFFFFFF - CM_SRAM_BASE + 2 ^ 32.
Proof.
  split.
  - apply (proj1 abb_make_wraps CM_SRAM_BB_BASE CM_SRAM_BASE 0x28000004 3).
    lia.
  - apply (proj1 (proj2 abb_make_wraps) CM_SRAM_BASE 0x1FFFFFFF);
      unfold CM_SRAM_BASE; lia.
Defined.

(** ** The accessors on any bus *)

Section Accessors.

Context {M : Type} (b : bus M).

Lemma exec_abb_set flag m :
  exec b (abb_set flag) m = Outcome [Store32 flag 1] tt (store32 b flag 1 m).
Proof. reflexivity. Qed.

Lemma exec_abb_clear flag m :
  exec b (abb_clear flag) m =
  Outcome [Store32 flag 0] tt (store32 b flag 0 m).
Proof. reflexivity. Qed.

Lemma exec_abb_tst flag m :
  exec b (abb_tst flag) m =
  Outcome [Load32 flag] ((load32 b flag m).1 =? 1) (load32 b flag m).2.
Proof. cbn. now destruct (load32 b flag m). Qed.

End Accessors.

(** ** The accessors on the bit-band bus *)

Section BitBandFacts.

Variables BB B n : Z.
Hypothesis Hok : platform_ok BB B n.

(** The hardware maps the handle of bit [k] of cell [c] back to bit [k] of
    cell [c]. *)
Lemma handle_decode c k :
  in_window B n c -> 0 <= k < 8 ->
  in_alias BB n (abb_make BB B c k) = true /\
  alias_cell BB B (abb_make BB B c k) = c /\
  alias_bit BB (abb_make BB B c k) = k.
Proof.
  intros Hc Hk.
  destruct (abb_make_in_window BB B n c k Hok Hc Hk) as [Heq Hin].
  split; [| split].
  - unfold in_alias. apply andb_true_iff. split.
    + apply Z.leb_le. lia.
    + apply Z.ltb_lt. lia.
  - unfold alias_cell. rewrite Heq.
    replace (BB + (c - B) * 32 + k * 4 - BB) with (k * 4 + (c - B) * 32)
      by lia.
    rewrite Z.div_add by lia. rewrite Z.div_small by lia. lia.
  - unfold alias_bit. rewrite Heq.
    replace (BB + (c - B) * 32 + k * 4 - BB) with ((k + (c - B) * 8) * 4)
      by lia.
    rewrite Z.div_mul by lia. rewrite Z.mod_add by lia.
    apply Z.mod_small. lia.
Qed.

Lemma store_handle c k v m :
  in_window B n c -> 0 <= k < 8 ->
  store32 (bitband_bus BB B n) (abb_make BB B c k) v m =
  <[c := if Z.testbit v 0 then Z.setbit (m c) k else Z.clearbit (m c) k]> m.
Proof.
  intros Hc Hk. destruct (handle_decode c k Hc Hk) as (Hin & Hcell & Hbit).
  unfold bitband_bus, store32, alias_store. rewrite Hin, Hcell, Hbit.
  reflexivity.
Qed.

Lemma load_handle c k m :
  in_window B n c -> 0 <= k < 8 ->
  load32 (bitband_bus BB B n) (abb_make BB B c k) m = (Z.b2z (Z.testbit (m c) k), m).
Proof.
  intros Hc Hk. destruct (handle_decode c k Hc Hk) as (Hin & Hcell & Hbit).
  unfold bitband_bus, load32, alias_load. rewrite Hin, Hcell, Hbit.
  reflexivity.
Qed.

(** Testing a handle reads the bit it stands for. *)
Lemma tst_handle c k m :
  in_window B n c -> 0 <= k < 8 ->
  exec (bitband_bus BB B n) (abb_tst (abb_make BB B c k)) m =
  Outcome [Load32 (abb_make BB B c k)] (Z.testbit (m c) k) m.
Proof.
  intros Hc Hk. rewrite exec_abb_tst, load_handle by assumption. cbn.
  now destruct (Z.testbit (m c) k).
Qed.

End BitBandFacts.

(** ** Claims about the accessors *)

(** C3.  For the handle of a bit 0..7 of a cell of the bit-band region:
    set then test gives true, clear then test gives false, and set, set,
    test gives true; the second set changes no byte of the memory. *)
Theorem set_clear_test_roundtrip (BB B n c k : Z) (m : sram) :
  platform_ok BB B n -> in_window B n c -> 0 <= k < 8 ->
  let flag := abb_make BB B c k in
  let b := bitband_bus BB B n in
  result (exec b (abb_set flag;; abb_tst flag) m) = true /\
  result (exec b (abb_clear flag;; abb_tst flag) m) = false /\
  result (exec b (abb_set flag;; abb_set flag;; abb_tst flag) m) = true /\
  (forall a, final (exec b (abb_set flag;; abb_set flag) m) a =
             final (exec b (abb_set flag) m) a).
Proof.
  intros Hok Hc Hk flag b. subst flag b.
  rewrite !exec_bind. cbn [result final trace exec abb_set abb_clear].
  rewrite !exec_bind. cbn [result final trace exec abb_set abb_clear].
  rewrite !(tst_handle BB B n Hok c k) by assumption.
  rewrite !(store_handle BB B n Hok c k) by assumption.
  cbn [result final Z.testbit Z.odd].
  rewrite !fn_lookup_insert.
  split; [| split; [| split]].
  - apply Z.setbit_eq; lia.
  - apply Z.clearbit_eq; lia.
  - apply Z.setbit_eq; lia.
  - intros a. destruct (decide (c = a)) as [-> | Hne].
    + rewrite !fn_lookup_insert.
      apply Z.bits_inj'. intros j Hj.
      rewrite !Z.setbit_eqb by lia.
      now destruct (k =? j).
    + now rewrite !fn_lookup_insert_ne by exact Hne.
Qed.

Lemma set_clear_test_roundtrip_witness :
  let flag := abb_make CM_SRAM_BB_BASE CM_SRAM_BASE 0x20000004 3 in
  let b := bitband_bus CM_SRAM_BB_BASE CM_SRAM_BASE CM_SRAM_BB_SIZE in
  let m : sram := fun _ => 0xA5 in
  result (exec b (abb_set flag;; abb_tst flag) m) = true /\
  result (exec b (abb_clear flag;; abb_tst flag) m) = false /\
  result (exec b (abb_set flag;; abb_set flag;; abb_tst flag) m) = true /\
  (forall a, final (exec b (abb_set flag;; abb_set flag) m) a =
             final (exec b (abb_set flag) m) a).
Proof.
  refine (set_clear_test_roundtrip CM_SRAM_BB_BASE CM_SRAM_BASE
            CM_SRAM_BB_SIZE 0x20000004 3 (fun _ => 0xA5) _ _ _).
  - unfold platform_ok, CM_SRAM_BB_BASE, CM_SRAM_BASE, CM_SRAM_BB_SIZE. lia.
  - unfold in_window, CM_SRAM_BASE, CM_SRAM_BB_SIZE. lia.
  - lia.
Defined.

(** C4.  For the handle of bit [k] of a cell of the bit-band region, set
    and clear change bit [k] of that cell and nothing else: every other bit
    of the cell, read through an ordinary byte access, is as it was before,
    and so is every other cell. *)
Theorem set_clear_frame (BB B n c k : Z) (m : sram) :
  platform_ok BB B n -> in_window B n c -> 0 <= k < 8 ->
  let flag := abb_make BB B c k in
  let b := bitband_bus BB B n in
  let m1 := final (exec b (abb_set flag) m) in
  let m0 := final (exec b (abb_clear flag) m) in
  (forall j, j <> k ->
     Z.testbit (load8 c m1) j = Z.testbit (load8 c m) j /\
     Z.testbit (load8 c m0) j = Z.testbit (load8 c m) j) /\
  Z.testbit (load8 c m1) k = true /\
  Z.testbit (load8 c m0) k = false /\
  (forall c', c' <> c -> load8 c' m1 = load8 c' m /\ load8 c' m0 = load8 c' m).
Proof.
  intros Hok Hc Hk flag b m1 m0. subst flag b m1 m0.
  rewrite exec_abb_set, exec_abb_clear. cbn [final].
  rewrite !(store_handle BB B n Hok c k) by assumption.
  cbn [Z.testbit Z.odd]. unfold load8.
  split; [| split; [| split]].
  - intros j Hj. rewrite !fn_lookup_insert. split.
    + apply Z.setbit_neq; lia.
    + apply Z.clearbit_neq; lia.
  - rewrite fn_lookup_insert. apply Z.setbit_eq; lia.
  - rewrite fn_lookup_insert. apply Z.clearbit_eq; lia.
  - intros c' Hne. now rewrite !fn_lookup_insert_ne by congruence.
Qed.

Lemma set_clear_frame_witness :
  let flag := abb_make CM_SRAM_BB_BASE CM_SRAM_BASE 0x20000004 3 in
  let b := bitband_bus CM_SRAM_BB_BASE CM_SRAM_BASE CM_SRAM_BB_SIZE in
  let m : sram := fun _ => 0xA5 in
  let m1 := final (exec b (abb_set flag) m) in
  let m0 := final (exec b (abb_clear flag) m) in
  (forall j, j <> 3 ->
     Z.testbit (load8 0x20000004 m1) j = Z.testbit (load8 0x20000004 m) j /\
     Z.testbit (load8 0x20000004 m0) j = Z.testbit (load8 0x20000004 m) j) /\
  Z.testbit (load8 0x20000004 m1) 3 = true /\
  Z.testbit (load8 0x20000004 m0) 3 = false /\
  (forall c', c' <> 0x20000004 ->
     load8 c' m1 = load8 c' m /\ load8 c' m0 = load8 c' m).
Proof.
  refine (set_clear_frame CM_SRAM_BB_BASE CM_SRAM_BASE CM_SRAM_BB_SIZE
            0x20000004 3 (fun _ => 0xA5) _ _ _).
  - unfold platform_ok, CM_SRAM_BB_BASE, CM_SRAM_BASE, CM_SRAM_BB_SIZE. lia.
  - unfold in_window, CM_SRAM_BASE, CM_SRAM_BB_SIZE. lia.
  - lia.
Defined.

(** C6.  On every bus and for every handle, [abb_tst] makes one access, a
    word load at the address of the handle, and returns true exactly when
    the value loaded is 1: 0 gives false, and so do 2, 3 and 0xFFFFFFFF. *)
Theorem abb_tst_strict :
  (forall (M : Type) (b : bus M) (flag : flag_t) (m : M),
      let o := exec b (abb_tst flag) m in
      trace o = [Load32 flag] /\
      (result o = true <-> (load32 b flag m).1 = 1) /\
      (result o = false <-> (load32 b flag m).1 <> 1) /\
      final o = (load32 b flag m).2) /\
  (forall flag,
      result (exec (stuck_bus 1) (abb_tst flag) tt) = true /\
      result (exec (stuck_bus 0) (abb_tst flag) tt) = false /\
      result (exec (stuck_bus 2) (abb_tst flag) tt) = false /\
      result (exec (stuck_bus 3) (abb_tst flag) tt) = false /\
      result (exec (stuck_bus 0xFFFFFFFF) (abb_tst flag) tt) = false).
Proof.
  split.
  - intros M b flag m o. subst o. rewrite exec_abb_tst. cbn [trace result final].
    split; [reflexivity | split; [| split; [| reflexivity]]].
    + apply Z.eqb_eq.
    + rewrite <- Z.eqb_neq. reflexivity.
  - intros flag. repeat split.
Qed.

Lemma abb_tst_strict_witness :
  result (exec (stuck_bus 2) (abb_tst 0x2200008C) tt) = false.
Proof.
  apply (proj1 (proj2 (proj2 (proj1 abb_tst_strict unit (stuck_bus 2)
                                0x2200008C tt)))).
  cbn. lia.
Defined.

(** C10.  [abb_tst] only reads.  On every bus it makes no store, and two
    tests in a row make two loads of the handle.  On a bus whose loads have
    no effect of their own the memory after the call is the memory before
    it, and two tests in a row give the same answer.  The bit-band bus is
    such a bus: after a test every byte and every word of the memory reads
    as before, and for the handle of a bit of a cell of the bit-band region
    the answer is that bit, both times. *)
Theorem abb_tst_read_only :
  (forall (M : Type) (b : bus M) (flag : flag_t) (m : M),
      let o := exec b (abb_tst flag) m in
      let oo :=
        exec b (r1 ← abb_tst flag; r2 ← abb_tst flag; mret (r1, r2)) m in
      (forall a v, Store32 a v ∉ trace o) /\
      trace oo = [Load32 flag; Load32 flag] /\
      ((forall a m', (load32 b a m').2 = m') ->
       final o = m /\ final oo = m /\
       (result oo).1 = (result oo).2 /\ (result oo).1 = result o)) /\
  (forall BB B n a (m : sram), (load32 (bitband_bus BB B n) a m).2 = m) /\
  (forall BB B n c k (m : sram),
      platform_ok BB B n -> in_window B n c -> 0 <= k < 8 ->
      let b := bitband_bus BB B n in
      let flag := abb_make BB B c k in
      let o := exec b (abb_tst flag) m in
      let oo :=
        exec b (r1 ← abb_tst flag; r2 ← abb_tst flag; mret (r1, r2)) m in
      final o = m /\
      (forall a, load8 a (final o) = load8 a m) /\
      (forall a, load32 b a (final o) = load32 b a m) /\
      result oo = (Z.testbit (load8 c m) k, Z.testbit (load8 c m) k) /\
      final oo = m).
Proof.
  split; [| split].
  - intros M b flag m o oo.
    assert (Ho : o = Outcome [Load32 flag] ((load32 b flag m).1 =? 1)
                       (load32 b flag m).2).
    { subst o. apply exec_abb_tst. }
    assert (Hoo : oo =
              let m' := (load32 b flag m).2 in
              Outcome [Load32 flag; Load32 flag]
                ((load32 b flag m).1 =? 1, (load32 b flag m').1 =? 1)
                (load32 b flag m').2).
    { subst oo. rewrite exec_bind, exec_abb_tst. cbn [result final trace].
      rewrite exec_bind, exec_abb_tst. reflexivity. }
    rewrite Ho, Hoo. cbn [result final trace fst snd].
    split; [| split; [reflexivity |]].
    + intros a v Hin. apply list_elem_of_singleton in Hin. discriminate Hin.
    + intros Hpure. rewrite !Hpure. repeat split.
  - reflexivity.
  - intros BB B n c k m Hok Hc Hk b flag o oo. subst b flag o oo.
    rewrite exec_bind. rewrite tst_handle by assumption.
    cbn [result final trace]. rewrite exec_bind. rewrite tst_handle by assumption.
    repeat split.
Qed.

Lemma abb_tst_read_only_witness :
  let b := bitband_bus CM_SRAM_BB_BASE CM_SRAM_BASE CM_SRAM_BB_SIZE in
  let flag := abb_make CM_SRAM_BB_BASE CM_SRAM_BASE 0x20000004 2 in
  let m : sram := fun _ => 0xA5 in
  let o := exec b (abb_tst flag) m in
  let oo := exec b (r1 ← abb_tst flag; r2 ← abb_tst flag; mret (r1, r2)) m in
  final o = m /\ final oo = m /\
  (result oo).1 = (result oo).2 /\ (result oo).1 = result o.
Proof.
  refine (proj2 (proj2 (proj1 abb_tst_read_only sram
            (bitband_bus CM_SRAM_BB_BASE CM_SRAM_BASE CM_SRAM_BB_SIZE)
            (abb_make CM_SRAM_BB_BASE CM_SRAM_BASE 0x20000004 2)
            (fun _ => 0xA5))) _).
  intros a m'. reflexivity.
Defined.

(** ** Claims about the configuration guards *)

Lemma defined_None (env : macros) (name : string) :
  env !! name = None -> defined env name = false.
Proof.
  intros H. unfold defined. apply bool_decide_eq_false.
  rewrite H. apply is_Some_None.
Qed.

Lemma defined_Some (env : macros) (name : string) (v : Z) :
  env !! name = Some v -> defined env name = true.
Proof.
  intros H. unfold defined. apply bool_decide_eq_true. rewrite H. eauto.
Qed.

(** C8.  When [SRAM1_BB_BASE] or [SRAM1_BASE] is not defined the header is
    not translated: an [#error] message is produced and none of its
    functions exists, so nothing is left to fail when the program runs.
    When both are defined the header is translated with their values. *)
Theorem missing_base_rejected (env : macros) :
  (env !! "SRAM1_BB_BASE"%string = None \/ env !! "SRAM1_BASE"%string = None ->
   (exists msgs, msgs <> [] /\ arm_bit_banding_h env = Rejected msgs) /\
   (forall make, arm_bit_banding_h env <> Accepted make)) /\
  (forall bb base,
      env !! "SRAM1_BB_BASE"%string = Some bb ->
      env !! "SRAM1_BASE"%string = Some base ->
      arm_bit_banding_h env = Accepted (abb_make bb base)).
Proof.
  split.
  - intros Hmiss.
    assert (Herr : config_errors env <> []).
    { unfold config_errors. destruct Hmiss as [H | H];
        rewrite (defined_None _ _ H).
      - discriminate.
      - destruct (defined env "SRAM1_BB_BASE"); discriminate. }
    unfold arm_bit_banding_h.
    destruct (config_errors env) as [| e errs]; [congruence |].
    split; [exists (e :: errs); split; [discriminate | reflexivity] |].
    intros make. discriminate.
  - intros bb base Hbb Hbase. unfold arm_bit_banding_h, config_errors.
    rewrite (defined_Some _ _ _ Hbb), (defined_Some _ _ _ Hbase). cbn.
    now rewrite (lookup_total_correct _ _ _ Hbb),
      (lookup_total_correct _ _ _ Hbase).
Qed.

Lemma missing_base_rejected_witness :
  (exists msgs, msgs <> [] /\
     arm_bit_banding_h {["SRAM1_BASE"%string := 0x20000000]} = Rejected msgs) /\
  arm_bit_banding_h
    (<["SRAM1_BB_BASE"%string := 0x22000000]>
       {["SRAM1_BASE"%string := 0x20000000]}) =
  Accepted (abb_make 0x22000000 0x20000000).
Proof.
  split.
  - apply (proj1 (missing_base_rejected {["SRAM1_BASE"%string := 0x20000000]})).
    left. reflexivity.
  - apply (proj2 (missing_base_rejected
                    (<["SRAM1_BB_BASE"%string := 0x22000000]>
                       {["SRAM1_BASE"%string := 0x20000000]}))).
    + reflexivity.
    + reflexivity.
Defined.

(** * Further properties of the translation *)

(** X1.  A handle is as aligned as the alias base: for a bit index 0..7 the
    handle and [SRAM1_BB_BASE] have the same remainder modulo 4, so with a
    word-aligned alias base everything [abb_make] returns, the sentinel
    included, is a word-aligned pointer. *)
Theorem abb_make_aligned (BB B addr bit : Z) :
  (0 <= bit < 8 -> abb_make BB B addr bit mod 4 = BB mod 4) /\
  (BB mod 4 = 0 -> 0 <= bit -> abb_make BB B addr bit mod 4 = 0).
Proof.
  assert (Hv : 0 <= bit < 8 -> abb_make BB B addr bit mod 4 = BB mod 4).
  { intros Hbit. rewrite abb_make_valid by lia. rewrite MAKE_FLAG_mod.
    unfold uint32. change (2 ^ 32) with 4294967296.
    Z.div_mod_to_equations. lia. }
  split; [exact Hv |].
  intros Hal Hbit. destruct (Z.lt_ge_cases bit 8) as [Hlt | Hge].
  - rewrite Hv by lia. exact Hal.
  - rewrite abb_make_invalid by lia. reflexivity.
Qed.

Lemma abb_make_aligned_witness :
  abb_make CM_SRAM_BB_BASE CM_SRAM_BASE 0x20000007 5 mod 4 = 0.
Proof.
  apply (proj2 (abb_make_aligned CM_SRAM_BB_BASE CM_SRAM_BASE 0x20000007 5)).
  - reflexivity.
  - lia.
Defined.

(** X2.  For a cell of the bit-band region and an alias base that is not 0,
    the sentinel means what it says: [abb_make] returns [INVALID_FLAG]
    exactly when the bit index is 8 or more. *)
Theorem abb_make_sentinel_exact (BB B n c k : Z) :
  platform_ok BB B n -> 0 < BB -> in_window B n c -> 0 <= k ->
  (abb_make BB B c k = INVALID_FLAG <-> 8 <= k).
Proof.
  intros Hok HBB Hc Hk. split.
  - intros Heq. destruct (Z.lt_ge_cases k 8) as [Hlt | Hge]; [| exact Hge].
    exfalso.
    destruct (abb_make_in_window BB B n c k Hok Hc ltac:(lia)) as [_ Hin].
    rewrite Heq in Hin. unfold INVALID_FLAG in Hin. lia.
  - apply abb_make_invalid.
Qed.

Lemma abb_make_sentinel_exact_witness :
  abb_make CM_SRAM_BB_BASE CM_SRAM_BASE 0x20000000 0 = INVALID_FLAG <-> 8 <= 0.
Proof.
  apply (abb_make_sentinel_exact CM_SRAM_BB_BASE CM_SRAM_BASE CM_SRAM_BB_SIZE).
  - unfold platform_ok, CM_SRAM_BB_BASE, CM_SRAM_BASE, CM_SRAM_BB_SIZE. lia.
  - unfold CM_SRAM_BB_BASE. lia.
  - unfold in_window, CM_SRAM_BASE, CM_SRAM_BB_SIZE. lia.
  - lia.
Defined.

(** X3.  Every alias word is a handle: a word-aligned address [h] of the
    alias window is what [abb_make] returns for the cell
    [B + (h - BB) / 32] of the bit-band region and the bit
    [((h - BB) / 4) mod 8]. *)
Theorem abb_make_onto_alias_words (BB B n h : Z) :
  platform_ok BB B n -> BB <= h < BB + 32 * n -> (h - BB) mod 4 = 0 ->
  let c := B + (h - BB) / 32 in
  let k := ((h - BB) / 4) mod 8 in
  in_window B n c /\ 0 <= k < 8 /\ abb_make BB B c k = h.
Proof.
  intros Hok Hh Hal c k.
  assert (Hc : in_window B n c).
  { unfold in_window. subst c. Z.div_mod_to_equations. lia. }
  assert (Hk : 0 <= k < 8) by (subst k; apply Z.mod_pos_bound; lia).
  split; [exact Hc | split; [exact Hk |]].
  destruct (abb_make_in_window BB B n c k Hok Hc Hk) as [-> _].
  subst c k. Z.div_mod_to_equations. lia.
Qed.

Lemma abb_make_onto_alias_words_witness :
  let c := CM_SRAM_BASE + (0x2200008C - CM_SRAM_BB_BASE) / 32 in
  let k := ((0x2200008C - CM_SRAM_BB_BASE) / 4) mod 8 in
  in_window CM_SRAM_BASE CM_SRAM_BB_SIZE c /\ 0 <= k < 8 /\
  abb_make CM_SRAM_BB_BASE CM_SRAM_BASE c k = 0x2200008C.
Proof.
  refine (abb_make_onto_alias_words CM_SRAM_BB_BASE CM_SRAM_BASE
            CM_SRAM_BB_SIZE 0x2200008C _ _ _).
  - unfold platform_ok, CM_SRAM_BB_BASE, CM_SRAM_BASE, CM_SRAM_BB_SIZE. lia.
  - unfold CM_SRAM_BB_BASE, CM_SRAM_BB_SIZE. lia.
  - reflexivity.
Defined.

(** X4.  Inside the bit-band region the handles keep the order of the
    cells: the first bit of the first cell has the alias base as its handle,
    the next cell starts 32 further, a handle of a lower cell lies below
    every handle of a higher cell, and every handle lies in the alias
    window. *)
Theorem abb_make_cell_stride (BB B n : Z) :
  platform_ok BB B n ->
  (0 < n -> abb_make BB B B 0 = BB) /\
  (forall c k,
      in_window B n c -> in_window B n (c + 1) -> 0 <= k < 8 ->
      abb_make BB B (c + 1) k = abb_make BB B c k + 32) /\
  (forall c1 k1 c2 k2,
      in_window B n c1 -> in_window B n c2 -> 0 <= k1 < 8 -> 0 <= k2 < 8 ->
      c1 < c2 -> abb_make BB B c1 k1 < abb_make BB B c2 k2) /\
  (forall c k,
      in_window B n c -> 0 <= k < 8 ->
      BB <= abb_make BB B c k < BB + 32 * n).
Proof.
  intros Hok.
  assert (Hex : forall c k, in_window B n c -> 0 <= k < 8 ->
                  abb_make BB B c k = BB + (c - B) * 32 + k * 4).
  { intros c k Hc Hk. now apply (abb_make_in_window BB B n c k). }
  split; [| split; [| split]].
  - intros Hn. rewrite Hex by (unfold in_window; lia). lia.
  - intros c k Hc Hc' Hk. rewrite !Hex by assumption. lia.
  - intros c1 k1 c2 k2 Hc1 Hc2 Hk1 Hk2 Hlt. rewrite !Hex by assumption. lia.
  - intros c k Hc Hk. now apply (abb_make_in_window BB B n c k).
Qed.

Lemma abb_make_cell_stride_witness :
  abb_make CM_SRAM_BB_BASE CM_SRAM_BASE (0x20000004 + 1) 3 =
  abb_make CM_SRAM_BB_BASE CM_SRAM_BASE 0x20000004 3 + 32.
Proof.
  apply (abb_make_cell_stride CM_SRAM_BB_BASE CM_SRAM_BASE CM_SRAM_BB_SIZE).
  - unfold platform_ok, CM_SRAM_BB_BASE, CM_SRAM_BASE, CM_SRAM_BB_SIZE. lia.
  - unfold in_window, CM_SRAM_BASE, CM_SRAM_BB_SIZE. lia.
  - unfold in_window, CM_SRAM_BASE, CM_SRAM_BB_SIZE. lia.
  - lia.
Defined.

(** X5.  Which cells share a handle: for one bit index 0..7, two cell
    addresses get the same handle exactly when they differ by a multiple of
    2^27, whatever the two bases are. *)
Theorem abb_make_collision_iff (BB B a1 a2 bit : Z) :
  0 <= bit < 8 ->
  (abb_make BB B a1 bit = abb_make BB B a2 bit <-> (a1 - a2) mod 2 ^ 27 = 0).
Proof.
  intros Hbit. rewrite !abb_make_valid by lia. rewrite !MAKE_FLAG_mod.
  unfold uint32. change (2 ^ 32) with 4294967296.
  change (2 ^ 27) with 134217728.
  split; intros H; Z.div_mod_to_equations; lia.
Qed.

Lemma abb_make_collision_iff_witness :
  abb_make CM_SRAM_BB_BASE CM_SRAM_BASE 0x28000004 3 =
  abb_make CM_SRAM_BB_BASE CM_SRAM_BASE 0x20000004 3.
Proof.
  apply (abb_make_collision_iff CM_SRAM_BB_BASE CM_SRAM_BASE
           0x28000004 0x20000004 3).
  - lia.
  - reflexivity.
Defined.

(** X6.  [MAKE_FLAG] itself does not look at the bit index: eight bit
    positions further is the same bit of the next cell, so a bit index of 8
    or more would name a bit of a later cell.  [abb_make] never does that:
    it gives the sentinel instead. *)
Theorem MAKE_FLAG_bit_overflow (BB B addr bit j : Z) :
  MAKE_FLAG BB B addr (bit + 8 * j) = MAKE_FLAG BB B (addr + j) bit /\
  (0 <= bit -> 0 < j ->
   abb_make BB B addr (bit + 8 * j) = INVALID_FLAG).
Proof.
  split.
  - rewrite !MAKE_FLAG_mod. f_equal. lia.
  - intros Hbit Hj. apply abb_make_invalid. lia.
Qed.

Lemma MAKE_FLAG_bit_overflow_witness :
  abb_make CM_SRAM_BB_BASE CM_SRAM_BASE 0x20000004 (3 + 8 * 1) = INVALID_FLAG.
Proof.
  apply (proj2 (MAKE_FLAG_bit_overflow CM_SRAM_BB_BASE CM_SRAM_BASE
                  0x20000004 3 1)); lia.
Defined.

(** * Further properties of the accessors *)

(** X7.  The accessors do not look for the sentinel: on every bus, with the
    handle [abb_make] returns for a bit index of 8 or more, [abb_set] and
    [abb_clear] store to address 0 and [abb_tst] loads from address 0. *)
Theorem sentinel_not_checked (BB B addr bit : Z) :
  8 <= bit ->
  forall (M : Type) (b : bus M) (m : M),
    let flag := abb_make BB B addr bit in
    trace (exec b (abb_set flag) m) = [Store32 0 1] /\
    trace (exec b (abb_clear flag) m) = [Store32 0 0] /\
    trace (exec b (abb_tst flag) m) = [Load32 0] /\
    final (exec b (abb_set flag) m) = store32 b 0 1 m.
Proof.
  intros Hbit M b m flag. subst flag.
  rewrite (abb_make_invalid BB B addr bit Hbit). unfold INVALID_FLAG.
  rewrite exec_abb_set, exec_abb_clear, exec_abb_tst. repeat split.
Qed.

Lemma sentinel_not_checked_witness :
  let flag := abb_make CM_SRAM_BB_BASE CM_SRAM_BASE 0x20000004 8 in
  trace (exec (stuck_bus 0) (abb_set flag) tt) = [Store32 0 1] /\
  trace (exec (stuck_bus 0) (abb_clear flag) tt) = [Store32 0 0] /\
  trace (exec (stuck_bus 0) (abb_tst flag) tt) = [Load32 0] /\
  final (exec (stuck_bus 0) (abb_set flag) tt) = store32 (stuck_bus 0) 0 1 tt.
Proof.
  refine (sentinel_not_checked CM_SRAM_BB_BASE CM_SRAM_BASE 0x20000004 8 _
            unit (stuck_bus 0) tt).
  lia.
Defined.

Section BitBandBits.

Variables BB B n : Z.
Hypothesis Hok : platform_ok BB B n.

(** A store through a handle, bit by bit: the bit the handle stands for
    becomes bit 0 of the value stored, every other bit of the memory stays. *)
Lemma store_handle_bit c k v (m : sram) a j :
  in_window B n c -> 0 <= k < 8 -> 0 <= j ->
  Z.testbit (store32 (bitband_bus BB B n) (abb_make BB B c k) v m a) j =
  if (a =? c) && (j =? k) then Z.odd v else Z.testbit (m a) j.
Proof.
  intros Hc Hk Hj. rewrite (store_handle BB B n Hok c k) by assumption.
  cbn [Z.testbit].
  destruct (Z.eqb_spec a c) as [-> | Hne]; cbn [andb].
  - rewrite fn_lookup_insert.
    destruct (Z.odd v).
    + rewrite Z.setbit_eqb by lia. rewrite (Z.eqb_sym k j).
      now destruct (j =? k).
    + rewrite Z.clearbit_eqb. rewrite (Z.eqb_sym k j).
      destruct (j =? k); cbn; [apply andb_false_r | apply andb_true_r].
  - rewrite fn_lookup_insert_ne by congruence. reflexivity.
Qed.

(** What a sequence of two stores through handles leaves. *)
Lemma store_store_bit c1 k1 v1 c2 k2 v2 (m : sram) a j :
  in_window B n c1 -> 0 <= k1 < 8 -> in_window B n c2 -> 0 <= k2 < 8 ->
  0 <= j ->
  Z.testbit
    (final (exec (bitband_bus BB B n)
              (St (abb_make BB B c1 k1) v1 (St (abb_make BB B c2 k2) v2
                 (Ret tt))) m) a) j =
  if (a =? c2) && (j =? k2) then Z.odd v2
  else if (a =? c1) && (j =? k1) then Z.odd v1
  else Z.testbit (m a) j.
Proof.
  intros Hc1 Hk1 Hc2 Hk2 Hj. cbn [exec final].
  rewrite !store_handle_bit by assumption. reflexivity.
Qed.

End BitBandBits.

(** X8.  Flags do not disturb one another: on the bit-band bus, setting or
    clearing one flag leaves the answer of [abb_tst] for every other flag,
    of the same cell or of another one, as it was. *)
Theorem flags_independent (BB B n c1 k1 c2 k2 : Z) (m : sram) :
  platform_ok BB B n ->
  in_window B n c1 -> in_window B n c2 -> 0 <= k1 < 8 -> 0 <= k2 < 8 ->
  c1 <> c2 \/ k1 <> k2 ->
  let b := bitband_bus BB B n in
  let f1 := abb_make BB B c1 k1 in
  let f2 := abb_make BB B c2 k2 in
  result (exec b (abb_set f1;; abb_tst f2) m) = result (exec b (abb_tst f2) m) /\
  result (exec b (abb_clear f1;; abb_tst f2) m) =
  result (exec b (abb_tst f2) m).
Proof.
  intros Hok Hc1 Hc2 Hk1 Hk2 Hne b f1 f2. subst b f1 f2.
  rewrite !exec_bind, exec_abb_set, exec_abb_clear. cbn [result final].
  rewrite !(tst_handle BB B n Hok c2 k2) by assumption. cbn [result].
  rewrite !(store_handle_bit BB B n Hok c1 k1) by (assumption || lia).
  destruct (Z.eqb_spec c2 c1), (Z.eqb_spec k2 k1); cbn [andb];
    first [lia | split; reflexivity].
Qed.

Lemma flags_independent_witness :
  let b := bitband_bus CM_SRAM_BB_BASE CM_SRAM_BASE CM_SRAM_BB_SIZE in
  let f1 := abb_make CM_SRAM_BB_BASE CM_SRAM_BASE 0x20000004 3 in
  let f2 := abb_make CM_SRAM_BB_BASE CM_SRAM_BASE 0x20000004 4 in
  let m : sram := fun _ => 0xA5 in
  result (exec b (abb_set f1;; abb_tst f2) m) = result (exec b (abb_tst f2) m) /\
  result (exec b (abb_clear f1;; abb_tst f2) m) =
  result (exec b (abb_tst f2) m).
Proof.
  refine (flags_independent CM_SRAM_BB_BASE CM_SRAM_BASE CM_SRAM_BB_SIZE
            0x20000004 3 0x20000004 4 (fun _ => 0xA5) _ _ _ _ _ _).
  - unfold platform_ok, CM_SRAM_BB_BASE, CM_SRAM_BASE, CM_SRAM_BB_SIZE. lia.
  - unfold in_window, CM_SRAM_BASE, CM_SRAM_BB_SIZE. lia.
  - unfold in_window, CM_SRAM_BASE, CM_SRAM_BB_SIZE. lia.
  - lia.
  - lia.
  - right. lia.
Defined.

(** X9.  The last write wins: on the bit-band bus, for the handle of a bit
    of a cell of the bit-band region, set then clear tests false and leaves
    the memory a single clear leaves; clear then set tests true and leaves
    the memory a single set leaves; a second clear changes nothing. *)
Theorem last_write_wins (BB B n c k : Z) (m : sram) :
  platform_ok BB B n -> in_window B n c -> 0 <= k < 8 ->
  let b := bitband_bus BB B n in
  let flag := abb_make BB B c k in
  result (exec b (abb_set flag;; abb_clear flag;; abb_tst flag) m) = false /\
  result (exec b (abb_clear flag;; abb_set flag;; abb_tst flag) m) = true /\
  (forall a, final (exec b (abb_set flag;; abb_clear flag) m) a =
             final (exec b (abb_clear flag) m) a) /\
  (forall a, final (exec b (abb_clear flag;; abb_set flag) m) a =
             final (exec b (abb_set flag) m) a) /\
  (forall a, final (exec b (abb_clear flag;; abb_clear flag) m) a =
             final (exec b (abb_clear flag) m) a).
Proof.
  intros Hok Hc Hk b flag. subst b flag.
  split; [| split].
  - rewrite exec_bind, exec_abb_set. cbn [result final].
    rewrite exec_bind, exec_abb_clear. cbn [result final].
    rewrite (tst_handle BB B n Hok c k) by assumption. cbn [result].
    rewrite (store_handle_bit BB B n Hok c k) by (assumption || lia).
    now rewrite !Z.eqb_refl.
  - rewrite exec_bind, exec_abb_clear. cbn [result final].
    rewrite exec_bind, exec_abb_set. cbn [result final].
    rewrite (tst_handle BB B n Hok c k) by assumption. cbn [result].
    rewrite (store_handle_bit BB B n Hok c k) by (assumption || lia).
    now rewrite !Z.eqb_refl.
  - repeat split; intros a; apply Z.bits_inj'; intros j Hj.
    + change (abb_set (abb_make BB B c k);; abb_clear (abb_make BB B c k))
        with (St (abb_make BB B c k) 1 (St (abb_make BB B c k) 0 (Ret tt))).
      rewrite (store_store_bit BB B n Hok) by assumption.
      rewrite exec_abb_clear. cbn [final].
      rewrite (store_handle_bit BB B n Hok) by assumption.
      now destruct ((a =? c) && (j =? k)).
    + change (abb_clear (abb_make BB B c k);; abb_set (abb_make BB B c k))
        with (St (abb_make BB B c k) 0 (St (abb_make BB B c k) 1 (Ret tt))).
      rewrite (store_store_bit BB B n Hok) by assumption.
      rewrite exec_abb_set. cbn [final].
      rewrite (store_handle_bit BB B n Hok) by assumption.
      now destruct ((a =? c) && (j =? k)).
    + change (abb_clear (abb_make BB B c k);; abb_clear (abb_make BB B c k))
        with (St (abb_make BB B c k) 0 (St (abb_make BB B c k) 0 (Ret tt))).
      rewrite (store_store_bit BB B n Hok) by assumption.
      rewrite exec_abb_clear. cbn [final].
      rewrite (store_handle_bit BB B n Hok) by assumption.
      now destruct ((a =? c) && (j =? k)).
Qed.

Lemma last_write_wins_witness :
  let b := bitband_bus CM_SRAM_BB_BASE CM_SRAM_BASE CM_SRAM_BB_SIZE in
  let flag := abb_make CM_SRAM_BB_BASE CM_SRAM_BASE 0x20000004 3 in
  let m : sram := fun _ => 0xA5 in
  result (exec b (abb_set flag;; abb_clear flag;; abb_tst flag) m) = false /\
  result (exec b (abb_clear flag;; abb_set flag;; abb_tst flag) m) = true /\
  (forall a, final (exec b (abb_set flag;; abb_clear flag) m) a =
             final (exec b (abb_clear flag) m) a) /\
  (forall a, final (exec b (abb_clear flag;; abb_set flag) m) a =
             final (exec b (abb_set flag) m) a) /\
  (forall a, final (exec b (abb_clear flag;; abb_clear flag) m) a =
             final (exec b (abb_clear flag) m) a).
Proof.
  refine (last_write_wins CM_SRAM_BB_BASE CM_SRAM_BASE CM_SRAM_BB_SIZE
            0x20000004 3 (fun _ => 0xA5) _ _ _).
  - unfold platform_ok, CM_SRAM_BB_BASE, CM_SRAM_BASE, CM_SRAM_BB_SIZE. lia.
  - unfold in_window, CM_SRAM_BASE, CM_SRAM_BB_SIZE. lia.
  - lia.
Defined.

(** X10.  Writes to different flags commute: on the bit-band bus, for two
    different flags, of one cell or of two, setting or clearing the first
    and then the second leaves the same memory as doing it the other way
    round. *)
Theorem accessors_commute (BB B n c1 k1 c2 k2 : Z) (m : sram)
    (op1 op2 : flag_t -> prog unit) :
  platform_ok BB B n ->
  in_window B n c1 -> in_window B n c2 -> 0 <= k1 < 8 -> 0 <= k2 < 8 ->
  c1 <> c2 \/ k1 <> k2 ->
  op1 = abb_set \/ op1 = abb_clear ->
  op2 = abb_set \/ op2 = abb_clear ->
  let b := bitband_bus BB B n in
  let f1 := abb_make BB B c1 k1 in
  let f2 := abb_make BB B c2 k2 in
  forall a, final (exec b (op1 f1;; op2 f2) m) a =
            final (exec b (op2 f2;; op1 f1) m) a.
Proof.
  intros Hok Hc1 Hc2 Hk1 Hk2 Hne Hop1 Hop2 b f1 f2 a. subst b f1 f2.
  assert (Hst : forall v1 v2 j, 0 <= j ->
            Z.testbit
              (final (exec (bitband_bus BB B n)
                        (St (abb_make BB B c1 k1) v1
                           (St (abb_make BB B c2 k2) v2 (Ret tt))) m) a) j =
            Z.testbit
              (final (exec (bitband_bus BB B n)
                        (St (abb_make BB B c2 k2) v2
                           (St (abb_make BB B c1 k1) v1 (Ret tt))) m) a) j).
  { intros v1 v2 j Hj. rewrite !(store_store_bit BB B n Hok) by assumption.
    destruct (Z.eqb_spec a c1), (Z.eqb_spec a c2), (Z.eqb_spec j k1),
      (Z.eqb_spec j k2); cbn [andb]; first [reflexivity | lia]. }
  apply Z.bits_inj'. intros j Hj.
  destruct Hop1 as [-> | ->], Hop2 as [-> | ->]; apply (Hst _ _ j Hj).
Qed.

Lemma accessors_commute_witness :
  let b := bitband_bus CM_SRAM_BB_BASE CM_SRAM_BASE CM_SRAM_BB_SIZE in
  let f1 := abb_make CM_SRAM_BB_BASE CM_SRAM_BASE 0x20000004 3 in
  let f2 := abb_make CM_SRAM_BB_BASE CM_SRAM_BASE 0x20000004 4 in
  final (exec b (abb_set f1;; abb_clear f2) (fun _ => 0xA5)) 0x20000004 =
  final (exec b (abb_clear f2;; abb_set f1) (fun _ => 0xA5)) 0x20000004.
Proof.
  refine (accessors_commute CM_SRAM_BB_BASE CM_SRAM_BASE CM_SRAM_BB_SIZE
            0x20000004 3 0x20000004 4 (fun _ => 0xA5) abb_set abb_clear
            _ _ _ _ _ _ _ _ 0x20000004).
  - unfold platform_ok, CM_SRAM_BB_BASE, CM_SRAM_BASE, CM_SRAM_BB_SIZE. lia.
  - unfold in_window, CM_SRAM_BASE, CM_SRAM_BB_SIZE. lia.
  - unfold in_window, CM_SRAM_BASE, CM_SRAM_BB_SIZE. lia.
  - lia.
  - lia.
  - right. lia.
  - left. reflexivity.
  - right. reflexivity.
Defined.

(** X11.  Writing back what was read changes nothing: on the bit-band bus,
    testing a flag and then setting it when the test was true and clearing
    it when the test was false makes one load and one store and leaves
    every byte of the memory as it was. *)
Theorem test_write_back (BB B n c k : Z) (m : sram) :
  platform_ok BB B n -> in_window B n c -> 0 <= k < 8 ->
  let b := bitband_bus BB B n in
  let flag := abb_make BB B c k in
  let o := exec b (r ← abb_tst flag;
                   if r : bool then abb_set flag else abb_clear flag) m in
  trace o = [Load32 flag; Store32 flag (Z.b2z (Z.testbit (load8 c m) k))] /\
  (forall a, final o a = m a).
Proof.
  intros Hok Hc Hk b flag o. subst b flag o.
  rewrite exec_bind. rewrite (tst_handle BB B n Hok c k) by assumption.
  cbn [result final trace]. unfold load8.
  destruct (Z.testbit (m c) k) eqn:Hbit.
  - rewrite exec_abb_set. cbn [trace final Z.b2z app]. split; [reflexivity |].
    intros a. apply Z.bits_inj'. intros j Hj.
    rewrite (store_handle_bit BB B n Hok) by assumption.
    destruct (Z.eqb_spec a c) as [-> | _], (Z.eqb_spec j k) as [-> | _];
      cbn [andb]; try reflexivity. now rewrite Hbit.
  - rewrite exec_abb_clear. cbn [trace final Z.b2z app]. split; [reflexivity |].
    intros a. apply Z.bits_inj'. intros j Hj.
    rewrite (store_handle_bit BB B n Hok) by assumption.
    destruct (Z.eqb_spec a c) as [-> | _], (Z.eqb_spec j k) as [-> | _];
      cbn [andb]; try reflexivity. now rewrite Hbit.
Qed.

Lemma test_write_back_witness :
  let b := bitband_bus CM_SRAM_BB_BASE CM_SRAM_BASE CM_SRAM_BB_SIZE in
  let flag := abb_make CM_SRAM_BB_BASE CM_SRAM_BASE 0x20000004 2 in
  let m : sram := fun _ => 0xA5 in
  let o := exec b (r ← abb_tst flag;
                   if r : bool then abb_set flag else abb_clear flag) m in
  trace o =
    [Load32 flag; Store32 flag (Z.b2z (Z.testbit (load8 0x20000004 m) 2))] /\
  (forall a, final o a = m a).
Proof.
  refine (test_write_back CM_SRAM_BB_BASE CM_SRAM_BASE CM_SRAM_BB_SIZE
            0x20000004 2 (fun _ => 0xA5) _ _ _).
  - unfold platform_ok, CM_SRAM_BB_BASE, CM_SRAM_BASE, CM_SRAM_BB_SIZE. lia.
  - unfold in_window, CM_SRAM_BASE, CM_SRAM_BB_SIZE. lia.
  - lia.
Defined.
